(** * M-Queue: the in-process sequential task queue of [src/Queue/Queue.ts]

  A shallow embedding of the [Queue] class and of its [#Worker] loop,
  followed by the properties of the queue that the specification states.

  The class is modelled as a record of its four fields; the part of the
  JavaScript runtime it relies on (the activations of the asynchronous
  [#Worker] that are suspended at their [await], and the [getResult]
  events emitted so far) is modelled by two further fields.  An
  asynchronous function runs synchronously up to its first [await], so
  [#Worker] is split there into [Worker] (the tick) and [Worker_resume]
  (the continuation). *)

From Stdlib Require Import String List Bool Arith ZArith QArith Lia.
Import ListNotations.

Local Open Scope nat_scope.

(* ================================================================= *)
(** ** JavaScript values used by the queue *)

(** A JavaScript [number].  Finite doubles are rationals; [-0] and [+0] are
  both [Finite 0], which is sound for the two operations the queue applies
  to numbers ([===] and truthiness), neither of which tells them apart. *)
Inductive number : Type :=
| NaN
| Infinity (negative : bool)
| Finite (q : Q).

(** [a === b] on numbers. *)
Definition number_strict_eq (a b : number) : bool :=
  match a, b with
  | Finite p, Finite q => Qeq_bool p q
  | Infinity s, Infinity t => Bool.eqb s t
  | _, _ => false
  end.

(** ToBoolean on numbers: [0], [-0] and [NaN] are falsy. *)
Definition number_truthy (a : number) : bool :=
  match a with
  | NaN => false
  | Infinity _ => true
  | Finite q => negb (Qeq_bool q 0)
  end.

(** The number of an array length or index. *)
Definition of_nat (n : nat) : number := Finite (inject_Z (Z.of_nat n)).

(** The type [string | number] of process identifiers. *)
Inductive id : Type :=
| NumId (n : number)
| StrId (s : string).

(** [a === b] on [string | number]. *)
Definition id_strict_eq (a b : id) : bool :=
  match a, b with
  | NumId m, NumId n => number_strict_eq m n
  | StrId s, StrId t => String.eqb s t
  | _, _ => false
  end.

(** ToBoolean on [string | number]: the empty string is falsy too. *)
Definition id_truthy (a : id) : bool :=
  match a with
  | NumId n => number_truthy n
  | StrId s => negb (String.eqb s EmptyString)
  end.

(** [a === b] where one side has type [string | number | null] and the
    other [string | number | undefined] ([None] is [null] on the one side
    and [undefined] on the other): the queue never compares [null] with
    [null] or [undefined] with [undefined], and [null], [undefined] and
    identifiers are pairwise different. *)
Definition strict_eq (a b : option id) : bool :=
  match a, b with
  | Some a, Some b => id_strict_eq a b
  | _, _ => false
  end.

(* ================================================================= *)
(** ** enum/enum.ts *)

Inductive ProcessState : Type :=
| UNDER_EXECUTION
| IDLE.

(** [a == b] on the enum. *)
Definition ProcessState_eq (a b : ProcessState) : bool :=
  match a, b with
  | UNDER_EXECUTION, UNDER_EXECUTION => true
  | IDLE, IDLE => true
  | _, _ => false
  end.

Module Priority.
Definition HIGH : number := Finite 1.
Definition LOW : number := Finite 0.
End Priority.

(* ================================================================= *)
(** ** types/type.ts *)

(** The promise a callable returns is modelled by what becomes of it: a
  record's callable is invoked at most once (by the worker that dequeued
  the record), so the callable is identified with the fate of that one
  promise.  The synchronous prefix of a callable is assumed not to call
  back into the queue. *)
Inductive Promise (any : Type) : Type :=
| fulfils (value : any)
| rejects (reason : any)
| pending.

Arguments fulfils {any} value.
Arguments rejects {any} reason.
Arguments pending {any}.

Module Process.
Record t (any : Type) : Type := mk {
  CallableFunction : Promise any;
  ProcessId : option id   (* [ProcessId?: string | number] *)
}.
Arguments mk {any} _ _.
Arguments CallableFunction {any} _.
Arguments ProcessId {any} _.
End Process.

Module PushPopReturnType.
Record t : Type := mk {
  ProcessId : option id;
  QueueLength : nat
}.
End PushPopReturnType.

Module Result.
Record t (any : Type) : Type := mk {
  value : any;
  processId : option id;
  queueLength : nat
}.
Arguments mk {any} _ _ _.
Arguments value {any} _.
Arguments processId {any} _.
Arguments queueLength {any} _.
End Result.

Module Options.
Record t : Type := mk {
  Priority : option number;   (* [Priority?: number | Priority] *)
  ProcessId : option id       (* [ProcessId?: string | number] *)
}.
End Options.

(** The errors the queue throws.  The source throws plain [Error]s; each
  constructor stands for one message. *)
Inductive Error : Type :=
| ValidationError
  (* 'Priority must be HIGH(1) or LOW(0)' *)
| EmptyQueueError
  (* "Queue is empty: No processes available to execute." *)
| ActiveTaskError (CurrentProcessId : option id)
  (* `Process already under execution: The process with ID
     ${this.CurrentProcessId} is currently running.` *)
| TypeError.
  (* reading a property of [undefined] *)

(** What a call does: it returns a value or throws. *)
Inductive Completion (A : Type) : Type :=
| Return (v : A)
| Throw (e : Error).

Arguments Return {A} v.
Arguments Throw {A} e.

(* ================================================================= *)
(** ** Array operations *)

Section Array.
Context {A : Type}.

(** [Array.prototype.findIndex]: the first index whose element satisfies
    [f], or [-1]. *)
Fixpoint findIndex_from (f : A -> bool) (l : list A) (i : Z) : Z :=
  match l with
  | [] => (-1)%Z
  | x :: l' => if f x then i else findIndex_from f l' (i + 1)%Z
  end.

Definition findIndex (f : A -> bool) (l : list A) : Z :=
  findIndex_from f l 0%Z.

(** [Array.prototype.splice(start, deleteCount)]: a negative [start]
    counts from the end.  Returns the removed elements and what is left
    of the array. *)
Definition splice (l : list A) (start : Z) (deleteCount : nat)
  : list A * list A :=
  let len := Z.of_nat (length l) in
  let actualStart :=
    Z.to_nat (if (start <? 0)%Z then Z.max (len + start) 0
              else Z.min start len) in
  let actualDeleteCount := Nat.min deleteCount (length l - actualStart) in
  (firstn actualDeleteCount (skipn actualStart l),
   firstn actualStart l ++ skipn (actualStart + actualDeleteCount) l).

(** [Array.prototype.pop]: the last element (or [undefined]) and what is
    left. *)
Fixpoint pop (l : list A) : option A * list A :=
  match l with
  | [] => (None, [])
  | [x] => (Some x, [])
  | x :: l' => let (r, rest) := pop l' in (r, x :: rest)
  end.

(** [Array.prototype.shift]: the first element (or [undefined]) and what
    is left. *)
Definition shift (l : list A) : option A * list A :=
  match l with
  | [] => (None, [])
  | x :: l' => (Some x, l')
  end.

(** [Array.prototype.unshift] and [Array.prototype.push], for one
    element. *)
Definition unshift (l : list A) (x : A) : list A := x :: l.
Definition push (l : list A) (x : A) : list A := l ++ [x].
End Array.

(* ================================================================= *)
(** ** Queue/Queue.ts *)

Module Queue.
Section Queue.
Context {any : Type}.

(** The class [Queue].  [_Queue], [_isProcessStartFlag] and [_ProcessState]
    are the private fields [#Queue], [#isProcessStartFlag] and
    [#ProcessState].  The last two fields belong to the runtime: [awaiting]
    holds, for each activation of [#Worker] suspended at its [await], the
    record [ele] it is awaiting; [emitted] is the sequence of results
    passed to [emit('getResult', _)], oldest first.  Listeners are taken to
    be observers that do not call back into the queue. *)
Record t : Type := mk {
  _Queue : list (Process.t any);
  _isProcessStartFlag : bool;
  _ProcessState : ProcessState;
  CurrentProcessId : option id;
  awaiting : list (Process.t any);
  emitted : list (Result.t any)
}.

(** [new Queue()]. *)
Definition new : t :=
  {| _Queue := [];
     _isProcessStartFlag := false;
     _ProcessState := IDLE;
     CurrentProcessId := None;
     awaiting := [];
     emitted := [] |}.

Definition set_Queue (this : t) (q : list (Process.t any)) : t :=
  {| _Queue := q;
     _isProcessStartFlag := _isProcessStartFlag this;
     _ProcessState := _ProcessState this;
     CurrentProcessId := CurrentProcessId this;
     awaiting := awaiting this;
     emitted := emitted this |}.

Definition set_isProcessStartFlag (this : t) (b : bool) : t :=
  {| _Queue := _Queue this;
     _isProcessStartFlag := b;
     _ProcessState := _ProcessState this;
     CurrentProcessId := CurrentProcessId this;
     awaiting := awaiting this;
     emitted := emitted this |}.

Definition set_ProcessState (this : t) (st : ProcessState) : t :=
  {| _Queue := _Queue this;
     _isProcessStartFlag := _isProcessStartFlag this;
     _ProcessState := st;
     CurrentProcessId := CurrentProcessId this;
     awaiting := awaiting this;
     emitted := emitted this |}.

Definition set_CurrentProcessId (this : t) (c : option id) : t :=
  {| _Queue := _Queue this;
     _isProcessStartFlag := _isProcessStartFlag this;
     _ProcessState := _ProcessState this;
     CurrentProcessId := c;
     awaiting := awaiting this;
     emitted := emitted this |}.

Definition set_awaiting (this : t) (a : list (Process.t any)) : t :=
  {| _Queue := _Queue this;
     _isProcessStartFlag := _isProcessStartFlag this;
     _ProcessState := _ProcessState this;
     CurrentProcessId := CurrentProcessId this;
     awaiting := a;
     emitted := emitted this |}.

(** [this.emit('getResult', result)]. *)
Definition emit (this : t) (result : Result.t any) : t :=
  {| _Queue := _Queue this;
     _isProcessStartFlag := _isProcessStartFlag this;
     _ProcessState := _ProcessState this;
     CurrentProcessId := CurrentProcessId this;
     awaiting := awaiting this;
     emitted := emitted this ++ [result] |}.

(** [x || null] for [x : string | number | undefined]. *)
Definition or_null (x : option id) : option id :=
  match x with
  | Some i => if id_truthy i then Some i else None
  | None => None
  end.

(** [#Worker], up to its [await]: the guard, then the dequeue of the front
    record, whose callable is invoked and awaited.  The guard excludes the
    empty buffer, so [this.#Queue[0]] and [ele] are defined. *)
Definition Worker (this : t) : t :=
  if negb (_isProcessStartFlag this)
     || (length (_Queue this) =? 0)
     || ProcessState_eq (_ProcessState this) UNDER_EXECUTION
  then this
  else
    let this := set_ProcessState this UNDER_EXECUTION in
    match hd_error (_Queue this) with
    | None => this
    | Some front =>
        let this :=
          set_CurrentProcessId this (or_null (Process.ProcessId front)) in
        match shift (_Queue this) with
        | (Some ele, rest) =>
            let this := set_Queue this rest in
            set_awaiting this (awaiting this ++ [ele])
        | (None, _) => this
        end
    end.

(** [#Worker], from the point where the awaited promise of [ele] has been
    fulfilled with [res]: the result is emitted, the state returns to
    [IDLE] and [#Worker] is called again. *)
Definition Worker_resume (ele : Process.t any) (res : any) (this : t) : t :=
  let result :=
    {| Result.value := res;
       Result.processId := Process.ProcessId ele;
       Result.queueLength := length (_Queue this) |} in
  let this := emit this result in
  let this := set_ProcessState this IDLE in
  Worker this.

(** [Options?.Priority] and [Options?.ProcessId]. *)
Definition Options_Priority (Options : option Options.t) : option number :=
  match Options with
  | Some o => Options.Priority o
  | None => None
  end.

Definition Options_ProcessId (Options : option Options.t) : option id :=
  match Options with
  | Some o => Options.ProcessId o
  | None => None
  end.

(** The test of [mqPush] that throws:
    [Options?.Priority && Options?.Priority !== 0 && Options?.Priority !== 1]. *)
Definition invalid_Priority (Options : option Options.t) : bool :=
  match Options_Priority Options with
  | None => false
  | Some p =>
      number_truthy p
      && negb (number_strict_eq p (Finite 0))
      && negb (number_strict_eq p (Finite 1))
  end.

(** [Options?.Priority === Priority.HIGH]. *)
Definition is_HIGH (Options : option Options.t) : bool :=
  match Options_Priority Options with
  | None => false
  | Some p => number_strict_eq p Priority.HIGH
  end.

(** The identifier [mqPush] gives the new record. *)
Definition push_id (Options : option Options.t) (this : t) : id :=
  match Options_ProcessId Options with
  | Some i => i
  | None => NumId (of_nat (length (_Queue this) + 1))
  end.

(** The third statement of [mqPush]: [unshift] for HIGH, [push]
    otherwise. *)
Definition insert (Process : Promise any) (Options : option Options.t)
    (this : t) : t :=
  let record := Process.mk Process (Some (push_id Options this)) in
  if is_HIGH Options
  then set_Queue this (unshift (_Queue this) record)
  else set_Queue this (push (_Queue this) record).

Definition mqPush (Process : Promise any) (Options : option Options.t)
    (this : t) : Completion PushPopReturnType.t * t :=
  let id := push_id Options this in
  if invalid_Priority Options then (Throw ValidationError, this)
  else
    let this := insert Process Options this in
    let this := if _isProcessStartFlag this then Worker this else this in
    (Return (PushPopReturnType.mk (Some id) (length (_Queue this))), this).

Definition mqPop (this : t) : Completion PushPopReturnType.t * t :=
  if length (_Queue this) =? 0 then (Throw EmptyQueueError, this)
  else
    match nth_error (_Queue this) (length (_Queue this) - 1) with
    | None => (Throw TypeError, this)
    | Some tail =>
        if strict_eq (CurrentProcessId this) (Process.ProcessId tail)
        then (Throw (ActiveTaskError (CurrentProcessId this)), this)
        else
          let (popped, rest) := pop (_Queue this) in
          let this := set_Queue this rest in
          let processId :=
            match popped with
            | Some p => Process.ProcessId p
            | None => None
            end in
          (Return (PushPopReturnType.mk processId (length (_Queue this))),
           this)
    end.

Definition mqRemove (ProcessId : id) (this : t)
    : Completion PushPopReturnType.t * t :=
  if length (_Queue this) =? 0 then (Throw EmptyQueueError, this)
  else if strict_eq (CurrentProcessId this) (Some ProcessId)
  then (Throw (ActiveTaskError (CurrentProcessId this)), this)
  else
    let index :=
      findIndex
        (fun i => strict_eq (Process.ProcessId i) (Some ProcessId))
        (_Queue this) in
    let (removed, rest) := splice (_Queue this) index 1 in
    let this := set_Queue this rest in
    match removed with
    | [] => (Throw TypeError, this)
    | r :: _ =>
        (Return (PushPopReturnType.mk (Process.ProcessId r)
                   (length (_Queue this))),
         this)
    end.

Definition mqStart (this : t) : t :=
  let this := set_isProcessStartFlag this true in
  Worker this.

Definition mqEnd (this : t) : t :=
  set_isProcessStartFlag this false.

Definition getCurrentProcessId (this : t) : option id :=
  CurrentProcessId this.

Definition getQueueLength (this : t) : nat :=
  length (_Queue this).

(** *** The runtime

    The activation of [#Worker] at position [i] of [awaiting] leaves its
    [await] when the promise it awaits settles.  On fulfilment the
    activation continues with [Worker_resume]; on rejection the [await]
    throws inside the activation, which ends there (nothing catches it).
    A promise that stays pending, or a position that holds no activation,
    gives no step. *)
Definition settle (i : nat) (this : t) : option t :=
  match nth_error (awaiting this) i with
  | None => None
  | Some ele =>
      let this :=
        set_awaiting this
          (firstn i (awaiting this) ++ skipn (S i) (awaiting this)) in
      match Process.CallableFunction ele with
      | fulfils res => Some (Worker_resume ele res this)
      | rejects _ => Some this
      | pending => None
      end
  end.

(** A call of a public method that changes the queue, whatever it returns
    or throws. *)
Inductive call : t -> t -> Prop :=
| call_mqPush Process Options this :
    call this (snd (mqPush Process Options this))
| call_mqPop this :
    call this (snd (mqPop this))
| call_mqRemove ProcessId this :
    call this (snd (mqRemove ProcessId this))
| call_mqStart this :
    call this (mqStart this)
| call_mqEnd this :
    call this (mqEnd this).

(** Any number of calls in a row, with no settlement in between. *)
Inductive calls : t -> t -> Prop :=
| calls_refl this : calls this this
| calls_step this this' this'' :
    calls this this' -> call this' this'' -> calls this this''.

(** One step of a queue in use: a call, or the settlement of an awaited
    promise. *)
Inductive step : t -> t -> Prop :=
| step_call this this' :
    call this this' -> step this this'
| step_settle i this this' :
    settle i this = Some this' -> step this this'.

(** The states a queue can be in. *)
Inductive reachable : t -> Prop :=
| reachable_new : reachable new
| reachable_step this this' :
    reachable this -> step this this' -> reachable this'.


(** The pushes of [l], one after the other: what each returned or threw,
    and the queue after the last. *)
Fixpoint mqPush_all (l : list (Promise any * option Options.t)) (this : t)
    : list (Completion PushPopReturnType.t) * t :=
  match l with
  | [] => ([], this)
  | (Process, Options) :: l' =>
      let (c, this) := mqPush Process Options this in
      let (cs, this) := mqPush_all l' this in
      (c :: cs, this)
  end.

End Queue.
Arguments t any : clear implicits.
End Queue.

(* ================================================================= *)
(** ** Vocabulary of the properties *)

Section Vocabulary.
Context {any : Type}.

(** At most one activation of the worker is suspended, and none when the
    execution flag is [IDLE]. *)
Definition exclusive (this : Queue.t any) : Prop :=
  length (Queue.awaiting this) <= 1
  /\ (Queue._ProcessState this = IDLE -> Queue.awaiting this = []).

(** A record whose callable's promise is fulfilled with [v]. *)
Definition task (vi : any * option id) : Process.t any :=
  Process.mk (fulfils (fst vi)) (snd vi).



(** Any number of steps in a row. *)
Inductive steps : Queue.t any -> Queue.t any -> Prop :=
| steps_refl this : steps this this
| steps_step this this' this'' :
    steps this this' -> Queue.step this' this'' -> steps this this''.

(** The execution flag is up although no activation of the worker is
    suspended: what a rejected promise leaves behind. *)
Definition stalled (this : Queue.t any) : Prop :=
  Queue._ProcessState this = UNDER_EXECUTION /\ Queue.awaiting this = [].

(** The current identifier is [null] or truthy. *)
Definition current_truthy (this : Queue.t any) : Prop :=
  match Queue.CurrentProcessId this with
  | Some i => id_truthy i = true
  | None => True
  end.

(** Every record, pending or executing, and every result emitted has an
    identifier (none is [undefined]). *)
Definition identified (this : Queue.t any) : Prop :=
  Forall (fun p => Process.ProcessId p <> None) (Queue._Queue this)
  /\ Forall (fun p => Process.ProcessId p <> None) (Queue.awaiting this)
  /\ Forall (fun r => Result.processId r <> None) (Queue.emitted this).

End Vocabulary.

(* ================================================================= *)
(** ** Array lemmas *)

Section ArrayFacts.
Context {A : Type}.

Lemma pop_snoc (init : list A) (tail : A) :
  pop (init ++ [tail]) = (Some tail, init).
Proof.
  induction init as [|x init IH]; [reflexivity|].
  change ((x :: init) ++ [tail]) with (x :: (init ++ [tail])).
  cbn [pop]. rewrite IH.
  destruct (init ++ [tail]) eqn:E; [|reflexivity].
  destruct init; discriminate.
Qed.

Lemma nth_error_snoc (init : list A) (tail : A) :
  nth_error (init ++ [tail]) (length (init ++ [tail]) - 1) = Some tail.
Proof.
  rewrite length_app; cbn [length].
  replace (length init + 1 - 1) with (length init) by lia.
  rewrite nth_error_app2 by lia.
  now rewrite Nat.sub_diag.
Qed.

Lemma findIndex_from_absent (f : A -> bool) (l : list A) (i : Z) :
  (forall x, In x l -> f x = false) ->
  findIndex_from f l i = (-1)%Z.
Proof.
  revert i; induction l as [|x l IH]; intros i H; [reflexivity|].
  cbn [findIndex_from].
  rewrite (H x) by now left.
  apply IH; intros y Hy; apply H; now right.
Qed.

(** [splice(-1, 1)] takes the last element away. *)
Lemma splice_minus_one (init : list A) (tail : A) :
  splice (init ++ [tail]) (-1) 1 = ([tail], init).
Proof.
  unfold splice.
  rewrite length_app; cbn [length].
  change ((-1 <? 0)%Z) with true; cbn match.
  replace (Z.to_nat (Z.max (Z.of_nat (length init + 1) + -1) 0))
    with (length init) by lia.
  replace (Nat.min 1 (length init + 1 - length init)) with 1 by lia.
  rewrite !skipn_app, !firstn_app.
  rewrite (skipn_all2 (n := length init) init) by lia.
  rewrite (skipn_all2 (n := length init + 1) init) by lia.
  rewrite (skipn_all2 (n := length init + 1 - length init) [tail])
    by (cbn [length]; lia).
  rewrite (firstn_all2 (n := length init) init) by lia.
  replace (length init - length init) with 0 by lia.
  cbn. now rewrite !app_nil_r.
Qed.

End ArrayFacts.

(* ================================================================= *)
(** ** Properties of the queue *)

Import Queue.

(** *** Removal *)

(** When no record carries the identifier, [findIndex] yields [-1], which
    [splice] reads as the last position: [mqRemove] takes the tail record
    away and returns its identifier. *)
Lemma mqRemove_absent (any : Type) (this : Queue.t any) (i : id)
    (init : list (Process.t any)) (tail : Process.t any) :
  _Queue this = init ++ [tail] ->
  strict_eq (CurrentProcessId this) (Some i) = false ->
  (forall p, In p (_Queue this) ->
             strict_eq (Process.ProcessId p) (Some i) = false) ->
  mqRemove i this
  = (Return (PushPopReturnType.mk (Process.ProcessId tail) (length init)),
     set_Queue this init).
Proof.
  intros Hq Hcur Habs. unfold mqRemove.
  rewrite Hcur.
  unfold findIndex. rewrite findIndex_from_absent by exact Habs.
  rewrite Hq, splice_minus_one.
  rewrite length_app; cbn [length].
  replace (length init + 1 =? 0) with false
    by (symmetry; apply Nat.eqb_neq; lia).
  reflexivity.
Qed.

(** C1, on the queue holding the records 1 and 2 with nothing executing:
    no record has the identifier 7, yet [mqRemove(7)] throws nothing; it
    returns [{ProcessId: 2, QueueLength: 1}] and leaves the record 1 alone
    in the buffer. *)
Theorem C1_remove_absent_id_removes_tail :
  let this : Queue.t nat :=
    snd (mqPush (fulfils 0) None (snd (mqPush (fulfils 0) None new))) in
  let record1 := Process.mk (fulfils 0) (Some (NumId (of_nat 1))) in
  let record2 := Process.mk (fulfils 0) (Some (NumId (of_nat 2))) in
  let seven := NumId (of_nat 7) in
  _Queue this = [record1; record2]
  /\ CurrentProcessId this = None
  /\ existsb (fun p => strict_eq (Process.ProcessId p) (Some seven))
       (_Queue this) = false
  /\ mqRemove seven this
     = (Return (PushPopReturnType.mk (Some (NumId (of_nat 2))) 1),
        set_Queue this [record1]).
Proof. cbv zeta. repeat split. Qed.

(** *** The worker tick *)

Lemma Worker_fires (any : Type) (this : Queue.t any)
    (front : Process.t any) (rest : list (Process.t any)) :
  _isProcessStartFlag this = true ->
  _ProcessState this = IDLE ->
  _Queue this = front :: rest ->
  Worker this
  = {| _Queue := rest;
       _isProcessStartFlag := true;
       _ProcessState := UNDER_EXECUTION;
       CurrentProcessId := or_null (Process.ProcessId front);
       awaiting := awaiting this ++ [front];
       emitted := emitted this |}.
Proof.
  intros Hs Hi Hq. unfold Worker. rewrite Hs, Hi, Hq. cbn.
  rewrite Hq; cbn. unfold set_awaiting, set_Queue; cbn. now rewrite Hs.
Qed.

Lemma Worker_not_started (any : Type) (this : Queue.t any) :
  _isProcessStartFlag this = false -> Worker this = this.
Proof. intros H. unfold Worker. now rewrite H. Qed.

Lemma Worker_empty (any : Type) (this : Queue.t any) :
  _Queue this = [] -> Worker this = this.
Proof.
  intros H. unfold Worker. rewrite H. cbn.
  now rewrite orb_true_r.
Qed.

Lemma Worker_under_execution (any : Type) (this : Queue.t any) :
  _ProcessState this = UNDER_EXECUTION -> Worker this = this.
Proof.
  intros H. unfold Worker. rewrite H. cbn.
  now rewrite orb_true_r.
Qed.

(** The tick moves at most the front record, from the buffer to the
    worker. *)
Lemma Worker_keeps_records (any : Type) (this : Queue.t any) :
  awaiting (Worker this) ++ _Queue (Worker this)
  = awaiting this ++ _Queue this
  \/ exists front rest,
       _Queue this = front :: rest
       /\ _Queue (Worker this) = rest
       /\ awaiting (Worker this) = awaiting this ++ [front].
Proof.
  destruct (_isProcessStartFlag this) eqn:Hs;
    [|left; now rewrite Worker_not_started].
  destruct (_ProcessState this) eqn:Hi;
    [left; now rewrite Worker_under_execution|].
  destruct (_Queue this) as [|front rest] eqn:Hq;
    [left; rewrite Worker_empty by assumption; now rewrite Hq|].
  right. exists front, rest.
  rewrite (Worker_fires _ this front rest) by assumption.
  cbn. auto.
Qed.

(** *** Pushing *)

Lemma mqPush_invalid (any : Type) (this : Queue.t any)
    (Process : Promise any) (Options : option Options.t) :
  invalid_Priority Options = true ->
  mqPush Process Options this = (Throw ValidationError, this).
Proof. intros H. unfold mqPush. now rewrite H. Qed.

Lemma mqPush_valid (any : Type) (this : Queue.t any)
    (Process : Promise any) (Options : option Options.t) :
  invalid_Priority Options = false ->
  mqPush Process Options this
  = let this' := insert Process Options this in
    let this' := if _isProcessStartFlag this then Worker this' else this' in
    (Return (PushPopReturnType.mk (Some (push_id Options this))
               (length (_Queue this'))),
     this').
Proof.
  intros H. unfold mqPush. rewrite H.
  replace (_isProcessStartFlag (insert Process Options this))
    with (_isProcessStartFlag this); [reflexivity|].
  unfold insert. now destruct (is_HIGH Options).
Qed.

(** A priority that is a number other than [NaN], [0] and [1] is
    rejected, and the queue is as it was. *)
Lemma mqPush_rejects_other_numbers (any : Type) (this : Queue.t any)
    (Process : Promise any) (Options : option Options.t) (p : number) :
  Options_Priority Options = Some p ->
  p <> NaN ->
  number_strict_eq p Priority.LOW = false ->
  number_strict_eq p Priority.HIGH = false ->
  mqPush Process Options this = (Throw ValidationError, this).
Proof.
  intros Hp Hnan Hlow Hhigh. apply mqPush_invalid.
  unfold invalid_Priority. rewrite Hp.
  unfold Priority.LOW, Priority.HIGH in *. rewrite Hlow, Hhigh.
  destruct p as [|neg|q]; [contradiction|reflexivity|].
  cbn in *. now rewrite Hlow.
Qed.

(** C3, at the priority [NaN], which is defined and is neither [HIGH] nor
    [LOW]: [mqPush] throws nothing and appends the record, so the buffer
    grows from 0 to 1. *)
Theorem C3_push_NaN_priority_is_accepted :
  let this : Queue.t nat := new in
  let Options := Some (Options.mk (Some NaN) None) in
  number_strict_eq NaN Priority.HIGH = false
  /\ number_strict_eq NaN Priority.LOW = false
  /\ mqPush (fulfils 0) Options this
     = (Return (PushPopReturnType.mk (Some (NumId (of_nat 1))) 1),
        set_Queue this
          [Process.mk (fulfils 0) (Some (NumId (of_nat 1)))])
  /\ getQueueLength this = 0
  /\ getQueueLength (snd (mqPush (fulfils 0) Options this)) = 1.
Proof. cbv zeta. repeat split. Qed.

(** C5: when the caller gives no [ProcessId], a successful [mqPush] returns
    the buffer length before the push plus one as the identifier, and the
    record it created (found afterwards in the buffer, or with the worker
    if the push made it start) carries that identifier.  The identifier is
    computed from the length at each call: on a new queue, push, push, pop,
    push returns the identifiers 1, 2, 2 (popped), 2. *)
Theorem C5_auto_id_is_length_plus_one (any : Type) (this : Queue.t any)
    (Process : Promise any) (Options : option Options.t) :
  Options_ProcessId Options = None ->
  invalid_Priority Options = false ->
  let auto := Some (NumId (of_nat (getQueueLength this + 1))) in
  (exists n this',
     mqPush Process Options this
     = (Return (PushPopReturnType.mk auto n), this')
     /\ In (Process.mk Process auto) (awaiting this' ++ _Queue this'))
  /\ (let this1 := snd (mqPush Process None new) in
      let this2 := snd (mqPush Process None this1) in
      let this3 := snd (mqPop this2) in
      fst (mqPush Process None new)
      = Return (PushPopReturnType.mk (Some (NumId (of_nat 1))) 1)
      /\ fst (mqPush Process None this1)
         = Return (PushPopReturnType.mk (Some (NumId (of_nat 2))) 2)
      /\ fst (mqPop this2)
         = Return (PushPopReturnType.mk (Some (NumId (of_nat 2))) 1)
      /\ fst (mqPush Process None this3)
         = Return (PushPopReturnType.mk (Some (NumId (of_nat 2))) 2)).
Proof.
  intros Hid Hvalid auto. split; [|cbv zeta; repeat split].
  rewrite mqPush_valid by assumption. cbv zeta.
  assert (Hpid : Some (push_id Options this) = auto).
  { unfold push_id. now rewrite Hid. }
  rewrite Hpid. eexists _, _. split; [reflexivity|].
  set (this1 := insert Process Options this).
  assert (Hin : In (Process.mk Process auto) (awaiting this1 ++ _Queue this1)).
  { apply in_or_app; right. unfold this1, insert. rewrite Hpid.
    destruct (is_HIGH Options); cbn; [now left|].
    apply in_or_app; right; now left. }
  destruct (_isProcessStartFlag this); [|exact Hin].
  destruct (Worker_keeps_records _ this1) as [E|(front & rest & Hq & Hq' & Ha)].
  - now rewrite E.
  - rewrite Hq', Ha, <- app_assoc. cbn. now rewrite <- Hq.
Qed.

Lemma C5_auto_id_witness :
  let this : Queue.t nat :=
    snd (mqPush (fulfils 0) None (snd (mqPush (fulfils 0) None new))) in
  exists n this',
    mqPush (fulfils 5) None this
    = (Return (PushPopReturnType.mk (Some (NumId (of_nat 3))) n), this')
    /\ In (Process.mk (fulfils 5) (Some (NumId (of_nat 3))))
         (awaiting this' ++ _Queue this').
Proof.
  exact (proj1 (C5_auto_id_is_length_plus_one nat
                  (snd (mqPush (fulfils 0) None
                          (snd (mqPush (fulfils 0) None new))))
                  (fulfils 5) None eq_refl eq_refl)).
Defined.

(** C4 as stated fails on a started, idle queue: the push on the empty
    buffer succeeds and returns the length 0, not 1; the buffer held one
    record after the insertion, which the worker tick dequeued before
    [mqPush] read the length. *)
Lemma C4_started_idle_push_returns_old_length :
  let this : Queue.t nat := mqStart new in
  _isProcessStartFlag this = true
  /\ _ProcessState this = IDLE
  /\ getQueueLength this = 0
  /\ getQueueLength (insert (fulfils 0) None this) = 1
  /\ exists r this',
       mqPush (fulfils 0) None this = (Return r, this')
       /\ PushPopReturnType.QueueLength r = 0
       /\ PushPopReturnType.QueueLength r <> getQueueLength this + 1.
Proof.
  cbv zeta. repeat split.
  eexists _, _. split; [reflexivity|]. split; [reflexivity|]. discriminate.
Qed.

Lemma insert_length (any : Type) (this : Queue.t any)
    (Process : Promise any) (Options : option Options.t) :
  getQueueLength (insert Process Options this) = getQueueLength this + 1.
Proof.
  unfold getQueueLength, insert, unshift, push.
  destruct (is_HIGH Options); cbn; [lia|].
  rewrite length_app; cbn; lia.
Qed.

(** C4, amended: when no callable invoked by the tick that the push
    triggers calls the queue synchronously (the frame of [Promise]), the
    length a successful [mqPush] returns is the length of the buffer when
    the push returns.  That is one more than the length before the push
    unless the queue is started and the worker idle; then the tick that the
    push triggers dequeues the front record before the push returns, and
    the length returned is the length before the push. *)
Theorem C4_push_returns_length_at_return (any : Type) (this : Queue.t any)
    (Process : Promise any) (Options : option Options.t)
    (r : PushPopReturnType.t) (this' : Queue.t any) :
  mqPush Process Options this = (Return r, this') ->
  PushPopReturnType.QueueLength r = getQueueLength this'
  /\ PushPopReturnType.QueueLength r
     = if _isProcessStartFlag this
          && ProcessState_eq (_ProcessState this) IDLE
       then getQueueLength this
       else getQueueLength this + 1.
Proof.
  intros H.
  destruct (invalid_Priority Options) eqn:Hv.
  { rewrite mqPush_invalid in H by assumption. discriminate. }
  rewrite mqPush_valid in H by assumption. cbv zeta in H.
  injection H as <- <-. split; [reflexivity|].
  pose proof (insert_length _ this Process Options) as Hlen.
  set (this1 := insert Process Options this) in *.
  assert (Hst : _ProcessState this1 = _ProcessState this).
  { unfold this1, insert. now destruct (is_HIGH Options). }
  assert (Hfl : _isProcessStartFlag this1 = _isProcessStartFlag this).
  { unfold this1, insert. now destruct (is_HIGH Options). }
  unfold getQueueLength in *. cbn [PushPopReturnType.QueueLength].
  destruct (_isProcessStartFlag this) eqn:Hs; cbn [andb]; [|exact Hlen].
  destruct (_ProcessState this) eqn:Hp; cbn [ProcessState_eq].
  - now rewrite Worker_under_execution.
  - destruct (_Queue this1) as [|front rest] eqn:Hq; [cbn in Hlen; lia|].
    rewrite (Worker_fires _ this1 front rest) by assumption.
    cbn in *. lia.
Qed.

Lemma C4_push_returns_length_witness :
  let this : Queue.t nat := mqStart new in
  PushPopReturnType.QueueLength
    (PushPopReturnType.mk (Some (NumId (of_nat 1))) 0)
  = getQueueLength (snd (mqPush (fulfils 0) None this))
  /\ PushPopReturnType.QueueLength
       (PushPopReturnType.mk (Some (NumId (of_nat 1))) 0)
     = if _isProcessStartFlag this
          && ProcessState_eq (_ProcessState this) IDLE
       then getQueueLength this
       else getQueueLength this + 1.
Proof.
  exact (C4_push_returns_length_at_return nat (mqStart new) (fulfils 0) None
           (PushPopReturnType.mk (Some (NumId (of_nat 1))) 0)
           (snd (mqPush (fulfils 0) None (mqStart new)))
           eq_refl).
Defined.

(** *** Popping *)

(** C7: [mqPop] on an empty buffer throws the empty-queue error; on a
    buffer that ends with [tail] it throws the active-task error when
    [CurrentProcessId === tail.ProcessId], and otherwise takes exactly
    [tail] away and returns its identifier with the new length.  The
    worker dequeues at the other end, the front.  After the LOW pushes A,
    B, C, [mqPop] returns C. *)
Theorem C7_mqPop (any : Type) :
  (forall this : Queue.t any,
     _Queue this = [] ->
     mqPop this = (Throw EmptyQueueError, this))
  /\ (forall (this : Queue.t any) init tail,
        _Queue this = init ++ [tail] ->
        mqPop this
        = if strict_eq (CurrentProcessId this) (Process.ProcessId tail)
          then (Throw (ActiveTaskError (CurrentProcessId this)), this)
          else (Return (PushPopReturnType.mk (Process.ProcessId tail)
                          (length init)),
                set_Queue this init))
  /\ (forall (this : Queue.t any) front rest,
        _Queue this = front :: rest ->
        _isProcessStartFlag this = true ->
        _ProcessState this = IDLE ->
        _Queue (Worker this) = rest
        /\ awaiting (Worker this) = awaiting this ++ [front])
  /\ (forall fA fB fC : Promise any,
        let LOW s := Some (Options.mk (Some Priority.LOW) (Some (StrId s))) in
        let this :=
          snd (mqPush_all [(fA, LOW "A"%string); (fB, LOW "B"%string); (fC, LOW "C"%string)]
                 new) in
        mqPop this
        = (Return (PushPopReturnType.mk (Some (StrId "C")) 2),
           set_Queue this [Process.mk fA (Some (StrId "A"));
                           Process.mk fB (Some (StrId "B"))])).
Proof.
  repeat apply conj.
  - intros this Hq. unfold mqPop. now rewrite Hq.
  - intros this init tail Hq. unfold mqPop.
    rewrite Hq, nth_error_snoc, pop_snoc.
    rewrite length_app; cbn [length].
    replace (length init + 1 =? 0) with false
      by (symmetry; apply Nat.eqb_neq; lia).
    reflexivity.
  - intros this front rest Hq Hs Hi.
    now rewrite (Worker_fires _ this front rest).
  - intros fA fB fC. reflexivity.
Qed.

Lemma C7_mqPop_witness :
  let record s := Process.mk (fulfils 0) (Some (StrId s)) in
  let empty : Queue.t nat := new in
  let two := set_Queue empty [record "A"%string; record "B"%string] in
  let executing_B := set_CurrentProcessId two (Some (StrId "B")) in
  let started := set_isProcessStartFlag two true in
  mqPop empty = (Throw EmptyQueueError, empty)
  /\ mqPop executing_B
     = (Throw (ActiveTaskError (Some (StrId "B"))), executing_B)
  /\ mqPop two
     = (Return (PushPopReturnType.mk (Some (StrId "B")) 1),
        set_Queue two [record "A"%string])
  /\ _Queue (Worker started) = [record "B"%string]
  /\ awaiting (Worker started) = [record "A"%string].
Proof.
  intros record empty two executing_B started.
  destruct (C7_mqPop nat) as (Hempty & Htail & Hworker & _).
  split; [exact (Hempty empty eq_refl)|].
  split;
    [exact (Htail executing_B [record "A"%string] (record "B"%string)
              eq_refl)|].
  split;
    [exact (Htail two [record "A"%string] (record "B"%string) eq_refl)|].
  exact (Hworker started (record "A"%string) [record "B"%string]
           eq_refl eq_refl eq_refl).
Defined.

(** *** What the methods leave untouched *)

Lemma set_Queue_same (any : Type) (this : Queue.t any) :
  set_Queue this (_Queue this) = this.
Proof. now destruct this. Qed.

Lemma insert_is_set_Queue (any : Type) (this : Queue.t any)
    (Process : Promise any) (Options : option Options.t) :
  exists q, insert Process Options this = set_Queue this q.
Proof. unfold insert. destruct (is_HIGH Options); eauto. Qed.

Lemma mqPop_is_set_Queue (any : Type) (this : Queue.t any) :
  exists q, snd (mqPop this) = set_Queue this q.
Proof.
  unfold mqPop.
  destruct (length (_Queue this) =? 0);
    [exists (_Queue this); now rewrite set_Queue_same|].
  destruct (nth_error _ _);
    [|exists (_Queue this); now rewrite set_Queue_same].
  destruct (strict_eq _ _);
    [exists (_Queue this); now rewrite set_Queue_same|].
  destruct (pop (_Queue this)) as [popped rest]. now exists rest.
Qed.

Lemma mqRemove_is_set_Queue (any : Type) (this : Queue.t any) (i : id) :
  exists q, snd (mqRemove i this) = set_Queue this q.
Proof.
  unfold mqRemove.
  destruct (length (_Queue this) =? 0);
    [exists (_Queue this); now rewrite set_Queue_same|].
  destruct (strict_eq _ _);
    [exists (_Queue this); now rewrite set_Queue_same|].
  destruct (splice _ _ _) as [removed rest].
  destruct removed; now exists rest.
Qed.

(** While a task executes, no call starts another: a call changes neither
    the execution flag, nor the current identifier, nor the suspended
    worker, nor the results emitted. *)
Lemma call_under_execution (any : Type) (this this' : Queue.t any) :
  call this this' ->
  _ProcessState this = UNDER_EXECUTION ->
  _ProcessState this' = UNDER_EXECUTION
  /\ CurrentProcessId this' = CurrentProcessId this
  /\ awaiting this' = awaiting this
  /\ emitted this' = emitted this.
Proof.
  intros Hcall Hex. destruct Hcall as [f o this| this | i this | this | this].
  - destruct (invalid_Priority o) eqn:Hv.
    + rewrite mqPush_invalid by assumption. now cbn.
    + rewrite mqPush_valid by assumption. cbv zeta. cbn [snd].
      destruct (insert_is_set_Queue _ this f o) as [q ->].
      destruct (_isProcessStartFlag this);
        [rewrite Worker_under_execution by assumption|]; now cbn.
  - destruct (mqPop_is_set_Queue _ this) as [q ->]. now cbn.
  - destruct (mqRemove_is_set_Queue _ this i) as [q ->]. now cbn.
  - unfold mqStart. rewrite Worker_under_execution; now cbn.
  - now cbn.
Qed.

Lemma calls_under_execution (any : Type) (this this' : Queue.t any) :
  calls this this' ->
  _ProcessState this = UNDER_EXECUTION ->
  _ProcessState this' = UNDER_EXECUTION
  /\ CurrentProcessId this' = CurrentProcessId this
  /\ awaiting this' = awaiting this
  /\ emitted this' = emitted this.
Proof.
  induction 1 as [this|this this' this'' _ IH Hcall]; intros Hex; [auto|].
  destruct (IH Hex) as (Hex' & Hc & Ha & He).
  destruct (call_under_execution _ _ _ Hcall Hex') as (? & Hc' & Ha' & He').
  rewrite Hc', Ha', He'. auto.
Qed.

(** *** The current identifier *)

(** C2, on a new queue after [mqPush], [mqStart] and the fulfilment of the
    task's promise: the result has been emitted and the execution flag is
    back to [IDLE], yet [getCurrentProcessId] still returns the
    identifier 1 of the task that completed. *)
Theorem C2_current_id_kept_after_completion :
  let this0 : Queue.t nat := snd (mqPush (fulfils 0) None new) in
  let this1 := mqStart this0 in
  exists this2,
    settle 0 this1 = Some this2
    /\ reachable this2
    /\ emitted this2 = [Result.mk 0 (Some (NumId (of_nat 1))) 0]
    /\ awaiting this2 = []
    /\ _ProcessState this2 = IDLE
    /\ getCurrentProcessId this2 = Some (NumId (of_nat 1)).
Proof.
  cbv zeta. eexists. split; [reflexivity|].
  split; [|repeat split].
  eapply reachable_step;
    [|apply (step_settle 0 (mqStart (snd (mqPush (fulfils 0) None new))));
      reflexivity].
  eapply reachable_step; [|apply step_call, call_mqStart].
  eapply reachable_step;
    [|apply step_call, (call_mqPush (fulfils 0) None)].
  apply reachable_new.
Qed.

(** C10: when the worker dequeues a record whose identifier is falsy (such
    as [0], [NaN] or the empty string), then from the tick on and through
    any calls made while the callable executes, the current identifier is
    [null]: [getCurrentProcessId] returns [null], and neither [mqPop] nor
    [mqRemove], for any identifier, throws the active-task error. *)
Theorem C10_falsy_id_is_not_current (any : Type) (this this' : Queue.t any)
    (ele : Process.t any) (rest : list (Process.t any)) (i : id) :
  _Queue this = ele :: rest ->
  _isProcessStartFlag this = true ->
  _ProcessState this = IDLE ->
  Process.ProcessId ele = Some i ->
  id_truthy i = false ->
  calls (Worker this) this' ->
  In ele (awaiting this')
  /\ _ProcessState this' = UNDER_EXECUTION
  /\ getCurrentProcessId this' = None
  /\ (forall e, fst (mqPop this') <> Throw (ActiveTaskError e))
  /\ (forall j e, fst (mqRemove j this') <> Throw (ActiveTaskError e)).
Proof.
  intros Hq Hs Hi Hid Hfalsy Hcalls.
  pose proof (Worker_fires _ this ele rest Hs Hi Hq) as HW.
  assert (Hex : _ProcessState (Worker this) = UNDER_EXECUTION)
    by now rewrite HW.
  destruct (calls_under_execution _ _ _ Hcalls Hex) as (Hex' & Hc & Ha & _).
  assert (Hnull : CurrentProcessId this' = None).
  { rewrite Hc, HW. cbn. rewrite Hid. cbn. now rewrite Hfalsy. }
  split; [rewrite Ha, HW; cbn; apply in_or_app; right; now left|].
  split; [assumption|]. split; [assumption|]. split.
  - intros e. unfold mqPop. rewrite Hnull.
    destruct (length (_Queue this') =? 0); [discriminate|].
    destruct (nth_error _ _); [|discriminate]. cbn [strict_eq].
    destruct (pop (_Queue this')). discriminate.
  - intros j e. unfold mqRemove. rewrite Hnull.
    destruct (length (_Queue this') =? 0); [discriminate|].
    cbn [strict_eq].
    destruct (splice _ _ _) as [[|r removed] q]; discriminate.
Qed.

Lemma C10_falsy_id_witness :
  let zero := Process.mk (fulfils 0) (Some (NumId (of_nat 0))) in
  let this : Queue.t nat :=
    set_isProcessStartFlag (set_Queue new [zero; zero]) true in
  let this' := snd (mqPush (fulfils 1) None (Worker this)) in
  In zero (awaiting this')
  /\ _ProcessState this' = UNDER_EXECUTION
  /\ getCurrentProcessId this' = None
  /\ (forall e, fst (mqPop this') <> Throw (ActiveTaskError e))
  /\ (forall j e, fst (mqRemove j this') <> Throw (ActiveTaskError e)).
Proof.
  intros zero this this'.
  apply (C10_falsy_id_is_not_current nat this this' zero [zero]
           (NumId (of_nat 0)) eq_refl eq_refl eq_refl eq_refl eq_refl).
  eapply calls_step; [apply calls_refl|].
  apply (call_mqPush (fulfils 1) None).
Defined.

(** *** One task at a time *)

Section OneAtATime.
Context {any : Type}.

Lemma exclusive_set_Queue (this : Queue.t any) q :
  exclusive this -> exclusive (set_Queue this q).
Proof. now unfold exclusive. Qed.

Lemma exclusive_Worker (this : Queue.t any) :
  exclusive this -> exclusive (Worker this).
Proof.
  intros Hex.
  destruct (_isProcessStartFlag this) eqn:Hs;
    [|now rewrite Worker_not_started].
  destruct (_ProcessState this) eqn:Hi;
    [now rewrite Worker_under_execution|].
  destruct (_Queue this) as [|front rest] eqn:Hq;
    [now rewrite Worker_empty|].
  rewrite (Worker_fires _ this front rest) by assumption.
  destruct Hex as [_ Hidle].
  split; cbn; [|discriminate].
  rewrite (Hidle Hi). cbn. lia.
Qed.

Lemma exclusive_call (this this' : Queue.t any) :
  call this this' -> exclusive this -> exclusive this'.
Proof.
  intros Hcall Hex. destruct Hcall as [f o this| this | i this | this | this].
  - destruct (invalid_Priority o) eqn:Hv.
    + now rewrite mqPush_invalid.
    + rewrite mqPush_valid by assumption. cbv zeta. cbn [snd].
      destruct (insert_is_set_Queue _ this f o) as [q ->].
      destruct (_isProcessStartFlag this);
        [apply exclusive_Worker|]; now apply exclusive_set_Queue.
  - destruct (mqPop_is_set_Queue _ this) as [q ->].
    now apply exclusive_set_Queue.
  - destruct (mqRemove_is_set_Queue _ this i) as [q ->].
    now apply exclusive_set_Queue.
  - apply exclusive_Worker. exact Hex.
  - exact Hex.
Qed.

Lemma exclusive_settle (i : nat) (this this' : Queue.t any) :
  settle i this = Some this' -> exclusive this -> exclusive this'.
Proof.
  unfold settle. intros Hsettle [Hle Hidle].
  destruct (awaiting this) as [|ele [|ele' l]] eqn:Ha;
    [now destruct i| |cbn in Hle; lia].
  destruct i as [|i]; [|now destruct i].
  cbn in Hsettle.
  destruct (Process.CallableFunction ele) as [res|reason|];
    [| |discriminate]; injection Hsettle as <-.
  - apply exclusive_Worker. split; cbn; [lia|reflexivity].
  - split; cbn; [lia|reflexivity].
Qed.

Lemma reachable_exclusive (this : Queue.t any) :
  reachable this -> exclusive this.
Proof.
  induction 1 as [|this this' _ IH Hstep].
  - split; cbn; [lia|reflexivity].
  - destruct Hstep as [this this' Hcall|i this this' Hsettle].
    + now apply (exclusive_call this).
    + now apply (exclusive_settle i this).
Qed.

End OneAtATime.

(** C9: in every state a queue can reach, at most one activation of the
    worker is suspended on a task, and one is suspended only while the
    execution flag is [UNDER_EXECUTION].  Under that flag a worker tick does
    nothing, and a successful push only inserts its record: it suspends no
    second activation. *)
Theorem C9_at_most_one_task_executes (any : Type) (this : Queue.t any) :
  reachable this ->
  length (awaiting this) <= 1
  /\ (awaiting this <> [] -> _ProcessState this = UNDER_EXECUTION)
  /\ (_ProcessState this = UNDER_EXECUTION ->
      Worker this = this
      /\ forall Process Options,
           invalid_Priority Options = false ->
           snd (mqPush Process Options this) = insert Process Options this
           /\ awaiting (snd (mqPush Process Options this)) = awaiting this).
Proof.
  intros Hreach.
  destruct (reachable_exclusive this Hreach) as [Hle Hidle].
  split; [exact Hle|]. split.
  - intros Hne. destruct (_ProcessState this); [reflexivity|].
    now destruct Hne; apply Hidle.
  - intros Hex. split; [now apply Worker_under_execution|].
    intros f o Hv. rewrite mqPush_valid by assumption. cbv zeta. cbn [snd].
    assert (Hins : _ProcessState (insert f o this) = UNDER_EXECUTION
                   /\ awaiting (insert f o this) = awaiting this).
    { destruct (insert_is_set_Queue _ this f o) as [q ->]. now cbn. }
    destruct Hins as [Hex' Ha].
    destruct (_isProcessStartFlag this);
      [rewrite Worker_under_execution by assumption|]; now split.
Qed.

Lemma C9_at_most_one_task_witness :
  let this : Queue.t nat :=
    mqStart (snd (mqPush (fulfils 0) None new)) in
  length (awaiting this) <= 1
  /\ _ProcessState this = UNDER_EXECUTION
  /\ Worker this = this
  /\ snd (mqPush (fulfils 1) None this) = insert (fulfils 1) None this
  /\ awaiting (snd (mqPush (fulfils 1) None this)) = awaiting this.
Proof.
  intros this.
  assert (Hreach : reachable this).
  { eapply reachable_step; [|apply step_call, call_mqStart].
    eapply reachable_step;
      [|apply step_call, (call_mqPush (fulfils 0) None)].
    apply reachable_new. }
  destruct (C9_at_most_one_task_executes nat this Hreach)
    as (Hle & Hflag & Hbusy).
  assert (Hex : _ProcessState this = UNDER_EXECUTION)
    by (apply Hflag; discriminate).
  destruct (Hbusy Hex) as (Htick & Hpush).
  destruct (Hpush (fulfils 1) None eq_refl) as (Hins & Hsame).
  auto.
Defined.

(** *** Draining *)

Section Draining.
Context {any : Type}.




(** The settlement of the only suspended activation, when its promise is
    fulfilled. *)
Lemma settle_fulfilled (this : Queue.t any) (v : any) (i : option id) :
  awaiting this = [task (v, i)] ->
  settle 0 this
  = Some (Worker_resume (task (v, i)) v (set_awaiting this [])).
Proof. intros Ha. unfold settle. now rewrite Ha. Qed.

(** When the promise is rejected instead, the activation ends without
    emitting anything and without returning the flag to [IDLE]. *)
Lemma settle_rejected (this : Queue.t any) (ele : Process.t any)
    (reason : any) :
  awaiting this = [ele] ->
  Process.CallableFunction ele = rejects reason ->
  settle 0 this = Some (set_awaiting this []).
Proof. intros Ha Hr. unfold settle. now rewrite Ha; cbn; rewrite Hr. Qed.



End Draining.




(** *** Priorities *)

Section Priorities.
Context {any : Type}.



End Priorities.




(* ================================================================= *)
(** ** Further properties of the methods *)

Section MoreArrayFacts.
Context {A : Type}.

Lemma findIndex_from_first (f : A -> bool) (before : list A) (r : A)
    (after : list A) (i : Z) :
  (forall x, In x before -> f x = false) ->
  f r = true ->
  findIndex_from f (before ++ r :: after) i
  = (i + Z.of_nat (length before))%Z.
Proof.
  revert i; induction before as [|x before IH]; intros i Hnone Hr.
  - cbn. rewrite Hr. lia.
  - cbn [app findIndex_from length].
    rewrite (Hnone x) by now left.
    rewrite IH by (auto; intros y Hy; apply Hnone; now right). lia.
Qed.

(** A list either has no element satisfying [f] or splits at the first
    one. *)
Lemma first_match_or_none (f : A -> bool) (l : list A) :
  (forall x, In x l -> f x = false)
  \/ exists before r after,
       l = before ++ r :: after
       /\ (forall x, In x before -> f x = false)
       /\ f r = true.
Proof.
  induction l as [|x l IH]; [left; intros x []|].
  destruct (f x) eqn:Hx.
  - right. exists [], x, l. repeat split; auto. intros y [].
  - destruct IH as [Hnone|(before & r & after & -> & Hnone & Hr)].
    + left. intros y [<-|Hy]; auto.
    + right. exists (x :: before), r, after. repeat split; auto.
      intros y [<-|Hy]; auto.
Qed.

(** [splice(i, 1)] at a position of the array takes that element away. *)
Lemma splice_at (before : list A) (r : A) (after : list A) :
  splice (before ++ r :: after) (Z.of_nat (length before)) 1
  = ([r], before ++ after).
Proof.
  unfold splice.
  rewrite length_app; cbn [length].
  replace (Z.of_nat (length before) <? 0)%Z with false
    by (symmetry; apply Z.ltb_ge; lia).
  replace (Z.to_nat (Z.min (Z.of_nat (length before))
                       (Z.of_nat (length before + S (length after)))))
    with (length before) by lia.
  replace (Nat.min 1 (length before + S (length after) - length before))
    with 1 by lia.
  rewrite !skipn_app, !firstn_app.
  rewrite (skipn_all2 (n := length before) before) by lia.
  rewrite (skipn_all2 (n := length before + 1) before) by lia.
  rewrite (firstn_all2 (n := length before) before) by lia.
  replace (length before - length before) with 0 by lia.
  replace (length before + 1 - length before) with 1 by lia.
  cbn. now rewrite app_nil_r.
Qed.

Lemma snoc_view (l : list A) :
  l <> [] -> exists init tail, l = init ++ [tail].
Proof.
  intros H. destruct (exists_last H) as (init & tail & ->). eauto.
Qed.

End MoreArrayFacts.

(** *** Removal, continued *)

Lemma mqRemove_match (any : Type) (this : Queue.t any) (i : id)
    (before : list (Process.t any)) (r : Process.t any)
    (after : list (Process.t any)) :
  _Queue this = before ++ r :: after ->
  (forall p, In p before -> strict_eq (Process.ProcessId p) (Some i) = false) ->
  strict_eq (Process.ProcessId r) (Some i) = true ->
  strict_eq (CurrentProcessId this) (Some i) = false ->
  mqRemove i this
  = (Return (PushPopReturnType.mk (Process.ProcessId r)
               (length before + length after)),
     set_Queue this (before ++ after)).
Proof.
  intros Hq Hnone Hr Hcur. unfold mqRemove. rewrite Hcur.
  unfold findIndex.
  rewrite Hq, (findIndex_from_first _ before r after 0 Hnone Hr).
  rewrite Z.add_0_l, splice_at.
  rewrite !length_app; cbn [length].
  replace (length before + S (length after) =? 0) with false
    by (symmetry; apply Nat.eqb_neq; lia).
  cbn [set_Queue _Queue]. now rewrite length_app.
Qed.

Lemma mqRemove_total (any : Type) (this : Queue.t any) (i : id) :
  _Queue this <> [] ->
  strict_eq (CurrentProcessId this) (Some i) = false ->
  exists before r after,
    _Queue this = before ++ r :: after
    /\ mqRemove i this
       = (Return (PushPopReturnType.mk (Process.ProcessId r)
                    (getQueueLength this - 1)),
          set_Queue this (before ++ after))
    /\ getQueueLength (snd (mqRemove i this)) = getQueueLength this - 1
    /\ (strict_eq (Process.ProcessId r) (Some i) = false -> after = []).
Proof.
  intros Hne Hcur.
  destruct (first_match_or_none
              (fun p => strict_eq (Process.ProcessId p) (Some i))
              (_Queue this))
    as [Hnone|(before & r & after & Hq & Hnone & Hr)].
  - destruct (snoc_view _ Hne) as (init & tail & Hq).
    exists init, tail, [].
    rewrite (mqRemove_absent _ this i init tail Hq Hcur Hnone).
    unfold getQueueLength. rewrite Hq, length_app, app_nil_r. cbn.
    replace (length init + 1 - 1) with (length init) by lia.
    auto.
  - exists before, r, after.
    rewrite (mqRemove_match _ this i before r after Hq Hnone Hr Hcur).
    unfold getQueueLength. rewrite Hq, !length_app. cbn.
    replace (length before + S (length after) - 1)
      with (length before + length after) by lia.
    split; [reflexivity|]. split; [reflexivity|].
    split; [cbn; rewrite length_app; cbn; lia|].
    intros E; congruence.
Qed.

(** X1: [mqRemove] takes away the first record, from the front, whose
    identifier is [===] to the one given (also when later records carry
    it too), keeps the others in order, and returns that record's
    identifier with the new length. *)
Theorem X1_mqRemove_first_match (any : Type) (this : Queue.t any) (i : id)
    (before : list (Process.t any)) (r : Process.t any)
    (after : list (Process.t any)) :
  _Queue this = before ++ r :: after ->
  (forall p, In p before -> strict_eq (Process.ProcessId p) (Some i) = false) ->
  strict_eq (Process.ProcessId r) (Some i) = true ->
  strict_eq (CurrentProcessId this) (Some i) = false ->
  mqRemove i this
  = (Return (PushPopReturnType.mk (Process.ProcessId r)
               (length before + length after)),
     set_Queue this (before ++ after)).
Proof. apply mqRemove_match. Qed.

Lemma X1_mqRemove_first_match_witness :
  let record n s := Process.mk (fulfils n) (Some (StrId s)) in
  let this : Queue.t nat :=
    set_Queue new [record 1 "a"%string; record 2 "b"%string;
                   record 3 "c"%string; record 4 "b"%string] in
  mqRemove (StrId "b") this
  = (Return (PushPopReturnType.mk (Some (StrId "b")) 3),
     set_Queue this [record 1 "a"%string; record 3 "c"%string;
                     record 4 "b"%string]).
Proof.
  intros record this.
  apply (X1_mqRemove_first_match nat this (StrId "b")
           [record 1 "a"%string] (record 2 "b"%string)
           [record 3 "c"%string; record 4 "b"%string] eq_refl).
  - intros p [<-|[]]. reflexivity.
  - reflexivity.
  - reflexivity.
Defined.



(** *** Failures and round trips *)

Lemma mqPop_snoc (any : Type) (this : Queue.t any)
    (init : list (Process.t any)) (tail : Process.t any) :
  _Queue this = init ++ [tail] ->
  mqPop this
  = if strict_eq (CurrentProcessId this) (Process.ProcessId tail)
    then (Throw (ActiveTaskError (CurrentProcessId this)), this)
    else (Return (PushPopReturnType.mk (Process.ProcessId tail)
                    (length init)),
          set_Queue this init).
Proof.
  intros Hq. unfold mqPop.
  rewrite Hq, nth_error_snoc, pop_snoc.
  rewrite length_app; cbn [length].
  replace (length init + 1 =? 0) with false
    by (symmetry; apply Nat.eqb_neq; lia).
  reflexivity.
Qed.

(** X3: a method that throws has changed nothing.  [mqPush] throws only
    the validation error; [mqPop] and [mqRemove] throw only the
    empty-queue error or the active-task error naming the current
    identifier, and never fail on a missing element. *)
Theorem X3_failed_calls_change_nothing (any : Type) (this : Queue.t any) :
  (forall Process Options e,
     fst (mqPush Process Options this) = Throw e ->
     e = ValidationError /\ snd (mqPush Process Options this) = this)
  /\ (forall e,
        fst (mqPop this) = Throw e ->
        (e = EmptyQueueError \/ e = ActiveTaskError (CurrentProcessId this))
        /\ snd (mqPop this) = this)
  /\ (forall i e,
        fst (mqRemove i this) = Throw e ->
        (e = EmptyQueueError \/ e = ActiveTaskError (CurrentProcessId this))
        /\ snd (mqRemove i this) = this).
Proof.
  repeat apply conj.
  - intros f o e. unfold mqPush.
    destruct (invalid_Priority o); cbn; [|discriminate].
    intros [= <-]. auto.
  - intros e.
    destruct (_Queue this) as [|x l] eqn:Hq.
    + unfold mqPop. rewrite Hq. cbn. intros [= <-]. auto.
    + destruct (snoc_view (x :: l)) as (init & tail & Hsnoc);
        [discriminate|].
      rewrite (mqPop_snoc _ this init tail) by now rewrite Hq.
      destruct (strict_eq _ _); cbn; [|discriminate].
      intros [= <-]. auto.
  - intros i e.
    destruct (_Queue this) as [|x l] eqn:Hq.
    + unfold mqRemove. rewrite Hq. cbn. intros [= <-]. auto.
    + destruct (strict_eq (CurrentProcessId this) (Some i)) eqn:Hcur.
      * unfold mqRemove. rewrite Hq, Hcur. cbn. intros [= <-]. auto.
      * destruct (mqRemove_total _ this i) as (b & r & a & _ & -> & _);
          [now rewrite Hq|assumption|].
        discriminate.
Qed.

Lemma X3_failed_calls_witness :
  let record s := Process.mk (fulfils 0) (Some (StrId s)) in
  let this : Queue.t nat :=
    set_CurrentProcessId (set_Queue new [record "a"%string])
      (Some (StrId "a")) in
  let two := Some (Options.mk (Some (Finite 2)) None) in
  snd (mqPush (fulfils 0) two this) = this
  /\ snd (mqPop this) = this
  /\ snd (mqRemove (StrId "a") this) = this.
Proof.
  intros record this two.
  destruct (X3_failed_calls_change_nothing nat this)
    as (Hpush & Hpop & Hremove).
  split; [exact (proj2 (Hpush (fulfils 0) two _ eq_refl))|].
  split; [exact (proj2 (Hpop _ eq_refl))|].
  exact (proj2 (Hremove (StrId "a") _ eq_refl)).
Defined.

(** While the queue is stopped or busy, a successful push is the
    insertion alone. *)
Lemma mqPush_no_tick (any : Type) (this : Queue.t any)
    (Process : Promise any) (Options : option Options.t) :
  invalid_Priority Options = false ->
  _isProcessStartFlag this = false
  \/ _ProcessState this = UNDER_EXECUTION ->
  mqPush Process Options this
  = (Return (PushPopReturnType.mk (Some (push_id Options this))
               (getQueueLength this + 1)),
     insert Process Options this).
Proof.
  intros Hv Hacc. rewrite mqPush_valid by assumption. cbv zeta.
  assert (Hp : _ProcessState (insert Process Options this)
               = _ProcessState this).
  { unfold insert. now destruct (is_HIGH Options). }
  assert (Hnotick :
            (if _isProcessStartFlag this
             then Worker (insert Process Options this)
             else insert Process Options this)
            = insert Process Options this).
  { destruct Hacc as [Hs|Hex].
    - now rewrite Hs.
    - destruct (_isProcessStartFlag this); [|reflexivity].
      apply Worker_under_execution. now rewrite Hp. }
  rewrite Hnotick.
  pose proof (insert_length _ this Process Options) as Hlen.
  unfold getQueueLength in *. now rewrite Hlen.
Qed.

(** X4: on a queue that is stopped or busy, a push that is not HIGH
    followed by [mqPop] gives back the identifier pushed and leaves the
    queue exactly as it was before the push, unless that identifier is
    [===] to the current one. *)
Theorem X4_push_then_pop (any : Type) (this : Queue.t any)
    (Process : Promise any) (Options : option Options.t) :
  invalid_Priority Options = false ->
  is_HIGH Options = false ->
  _isProcessStartFlag this = false
  \/ _ProcessState this = UNDER_EXECUTION ->
  strict_eq (CurrentProcessId this) (Some (push_id Options this)) = false ->
  mqPop (snd (mqPush Process Options this))
  = (Return (PushPopReturnType.mk (Some (push_id Options this))
               (getQueueLength this)),
     this).
Proof.
  intros Hv Hlow Hacc Hcur.
  rewrite mqPush_no_tick by assumption. cbn [snd].
  unfold insert. rewrite Hlow. unfold push.
  rewrite (mqPop_snoc _ _ (_Queue this)
             (Process.mk Process (Some (push_id Options this))))
    by reflexivity.
  cbn [set_Queue CurrentProcessId Process.ProcessId]. rewrite Hcur.
  unfold getQueueLength. f_equal. now destruct this.
Qed.

Lemma X4_push_then_pop_witness :
  let record s := Process.mk (fulfils 0) (Some (StrId s)) in
  let this : Queue.t nat :=
    set_Queue new [record "a"%string; record "b"%string] in
  mqPop (snd (mqPush (fulfils 7) None this))
  = (Return (PushPopReturnType.mk (Some (NumId (of_nat 3))) 2), this).
Proof.
  intros record this.
  exact (X4_push_then_pop nat this (fulfils 7) None
           eq_refl eq_refl (or_introl eq_refl) eq_refl).
Defined.

(** X5: on a queue that is stopped or busy, a HIGH push followed by
    [mqRemove] of the identifier pushed gives that identifier back and
    leaves the queue exactly as it was before the push, provided the
    identifier is [===] to itself (it is not [NaN]) and not to the current
    one: the record found first is the one just put at the front. *)
Theorem X5_high_push_then_remove (any : Type) (this : Queue.t any)
    (Process : Promise any) (Options : option Options.t) :
  is_HIGH Options = true ->
  _isProcessStartFlag this = false
  \/ _ProcessState this = UNDER_EXECUTION ->
  let i := push_id Options this in
  id_strict_eq i i = true ->
  strict_eq (CurrentProcessId this) (Some i) = false ->
  mqRemove i (snd (mqPush Process Options this))
  = (Return (PushPopReturnType.mk (Some i) (getQueueLength this)), this).
Proof.
  intros Hhigh Hacc i Hrefl Hcur.
  assert (Hv : invalid_Priority Options = false).
  { unfold invalid_Priority, is_HIGH in *.
    destruct (Options_Priority Options) as [p|]; [|reflexivity].
    unfold Priority.HIGH in Hhigh. rewrite Hhigh. cbn.
    now rewrite andb_false_r. }
  rewrite mqPush_no_tick by assumption. cbn [snd].
  unfold insert. rewrite Hhigh. unfold unshift. fold i.
  rewrite (mqRemove_match _ _ i [] (Process.mk Process (Some i))
             (_Queue this)); try reflexivity; try assumption.
  - unfold getQueueLength. cbn [length Nat.add]. f_equal.
    now destruct this.
  - intros p [].
Qed.

Lemma X5_high_push_then_remove_witness :
  let record s := Process.mk (fulfils 0) (Some (StrId s)) in
  let this : Queue.t nat :=
    set_Queue new [record "a"%string; record "b"%string] in
  let HIGH := Some (Options.mk (Some Priority.HIGH) (Some (StrId "b"))) in
  mqRemove (StrId "b") (snd (mqPush (fulfils 7) HIGH this))
  = (Return (PushPopReturnType.mk (Some (StrId "b")) 2), this).
Proof.
  intros record this HIGH.
  exact (X5_high_push_then_remove nat this (fulfils 7) HIGH
           eq_refl (or_introl eq_refl) eq_refl eq_refl).
Defined.

(** *** Starting and stopping *)

Lemma Worker_idempotent (any : Type) (this : Queue.t any) :
  Worker (Worker this) = Worker this.
Proof.
  destruct (_isProcessStartFlag this) eqn:Hs;
    [|rewrite (Worker_not_started _ this) by assumption;
      now apply Worker_not_started].
  destruct (_ProcessState this) eqn:Hi;
    [rewrite (Worker_under_execution _ this) by assumption;
     now apply Worker_under_execution|].
  destruct (_Queue this) as [|front rest] eqn:Hq;
    [rewrite (Worker_empty _ this) by assumption; now apply Worker_empty|].
  rewrite (Worker_fires _ this front rest) by assumption.
  now apply Worker_under_execution.
Qed.

(** X6: calling [mqStart] again changes nothing: a second call right after
    the first neither dequeues a second record nor suspends a second
    worker. *)
Theorem X6_mqStart_idempotent (any : Type) (this : Queue.t any) :
  mqStart (mqStart this) = mqStart this.
Proof.
  unfold mqStart.
  set (this1 := set_isProcessStartFlag this true).
  assert (Hflag : _isProcessStartFlag (Worker this1) = true).
  { destruct (_ProcessState this1) eqn:Hi;
      [rewrite Worker_under_execution by assumption; reflexivity|].
    destruct (_Queue this1) as [|front rest] eqn:Hq;
      [rewrite Worker_empty by assumption; reflexivity|].
    rewrite (Worker_fires _ this1 front rest) by (assumption || reflexivity).
    reflexivity. }
  replace (set_isProcessStartFlag (Worker this1) true) with (Worker this1).
  - apply Worker_idempotent.
  - destruct (Worker this1); cbn in *. now subst.
Qed.

Section Backlog.
Context {any : Type}.

(** Whatever the queue was, after a tick a started, idle queue has an empty
    buffer: had there been a record, the tick would have taken it. *)
Lemma Worker_leaves_no_backlog (this : Queue.t any) :
  _isProcessStartFlag (Worker this) = true ->
  _ProcessState (Worker this) = IDLE ->
  _Queue (Worker this) = [].
Proof.
  destruct (_isProcessStartFlag this) eqn:Hs;
    [|rewrite Worker_not_started by assumption; congruence].
  destruct (_ProcessState this) eqn:Hi;
    [rewrite Worker_under_execution by assumption; congruence|].
  destruct (_Queue this) as [|front rest] eqn:Hq;
    [rewrite Worker_empty by assumption; auto|].
  rewrite (Worker_fires _ this front rest) by assumption.
  cbn. discriminate.
Qed.

Lemma step_leaves_no_backlog (this this' : Queue.t any) :
  step this this' ->
  (_isProcessStartFlag this = true -> _ProcessState this = IDLE ->
   _Queue this = []) ->
  _isProcessStartFlag this' = true -> _ProcessState this' = IDLE ->
  _Queue this' = [].
Proof.
  intros Hstep IH.
  destruct Hstep as [this this' Hcall|i this this' Hsettle].
  - destruct Hcall as [f o this| this | i this | this | this].
    + destruct (invalid_Priority o) eqn:Hv.
      * now rewrite mqPush_invalid.
      * rewrite mqPush_valid by assumption. cbv zeta. cbn [snd].
        destruct (_isProcessStartFlag this) eqn:Hs.
        -- apply Worker_leaves_no_backlog.
        -- destruct (insert_is_set_Queue _ this f o) as [q ->].
           cbn. congruence.
    + destruct (mqPop_is_set_Queue _ this) as [q Hq].
      intros Hs Hi. rewrite Hq in Hs, Hi. cbn in Hs, Hi.
      unfold mqPop. rewrite (IH Hs Hi). cbn. exact (IH Hs Hi).
    + destruct (mqRemove_is_set_Queue _ this i) as [q Hq].
      intros Hs Hi. rewrite Hq in Hs, Hi. cbn in Hs, Hi.
      unfold mqRemove. rewrite (IH Hs Hi). cbn. exact (IH Hs Hi).
    + apply Worker_leaves_no_backlog.
    + cbn. discriminate.
  - unfold settle in Hsettle.
    destruct (nth_error (awaiting this) i) as [ele|]; [|discriminate].
    destruct (Process.CallableFunction ele) as [res|reason|];
      [| |discriminate]; injection Hsettle as <-.
    + apply Worker_leaves_no_backlog.
    + cbn. exact IH.
Qed.

Lemma reachable_no_backlog (this : Queue.t any) :
  reachable this ->
  _isProcessStartFlag this = true ->
  _ProcessState this = IDLE ->
  _Queue this = [].
Proof.
  induction 1 as [|this this' _ IH Hstep].
  - reflexivity.
  - now apply (step_leaves_no_backlog this).
Qed.

End Backlog.

(** X7: in every state a queue can reach, a started queue whose execution
    flag is [IDLE] has an empty buffer: a started queue never sits idle on
    pending work. *)
Theorem X7_started_idle_queue_is_empty (any : Type) (this : Queue.t any) :
  reachable this ->
  _isProcessStartFlag this = true ->
  _ProcessState this = IDLE ->
  _Queue this = [] /\ getQueueLength this = 0.
Proof.
  intros Hreach Hs Hi.
  pose proof (reachable_no_backlog this Hreach Hs Hi) as Hq.
  unfold getQueueLength. now rewrite Hq.
Qed.

Lemma X7_started_idle_queue_witness :
  let this : Queue.t nat := mqStart new in
  _Queue this = [] /\ getQueueLength this = 0.
Proof.
  intros this.
  apply (X7_started_idle_queue_is_empty nat this); try reflexivity.
  eapply reachable_step; [apply reachable_new|].
  apply step_call, call_mqStart.
Defined.

(** *** Rejection *)

Section Stall.
Context {any : Type}.

Lemma stalled_step (this this' : Queue.t any) :
  stalled this -> step this this' ->
  stalled this' /\ emitted this' = emitted this.
Proof.
  intros [Hex Ha] Hstep.
  destruct Hstep as [this this' Hcall|i this this' Hsettle].
  - destruct (call_under_execution _ _ _ Hcall Hex) as (Hex' & _ & Ha' & He).
    split; [split|]; congruence.
  - unfold settle in Hsettle. rewrite Ha in Hsettle.
    now destruct i.
Qed.

Lemma stalled_steps (this this' : Queue.t any) :
  stalled this -> steps this this' ->
  stalled this' /\ emitted this' = emitted this.
Proof.
  intros Hst Hsteps.
  induction Hsteps as [this|this this' this'' _ IH Hstep]; [auto|].
  destruct (IH Hst) as [Hst' He].
  destruct (stalled_step _ _ Hst' Hstep) as [Hst'' He'].
  split; [assumption|congruence].
Qed.

End Stall.

(** X8: when the promise of the executing task is rejected, the worker
    ends without emitting a result and without returning the execution
    flag to [IDLE]; from then on, whatever is called and whatever settles,
    no worker is ever suspended again and nothing more is emitted: the
    queue executes no further task. *)
Theorem X8_rejection_stalls_the_queue (any : Type) (this : Queue.t any)
    (ele : Process.t any) (reason : any) :
  _ProcessState this = UNDER_EXECUTION ->
  awaiting this = [ele] ->
  Process.CallableFunction ele = rejects reason ->
  exists this0,
    settle 0 this = Some this0
    /\ _Queue this0 = _Queue this
    /\ forall this',
         steps this0 this' ->
         _ProcessState this' = UNDER_EXECUTION
         /\ awaiting this' = []
         /\ emitted this' = emitted this.
Proof.
  intros Hex Ha Hr. exists (set_awaiting this []).
  split; [now apply (settle_rejected this ele reason)|].
  split; [reflexivity|].
  intros this' Hsteps.
  destruct (stalled_steps (set_awaiting this []) this') as [[Hex' Ha'] He];
    [now split|assumption|auto].
Qed.

Lemma X8_rejection_stalls_witness :
  let failing := Process.mk (rejects 0) (Some (StrId "a")) in
  let next := Process.mk (fulfils 1) (Some (StrId "b")) in
  let this : Queue.t nat := mqStart (set_Queue new [failing; next]) in
  exists this0,
    settle 0 this = Some this0
    /\ _Queue this0 = [next]
    /\ _ProcessState (mqStart this0) = UNDER_EXECUTION
    /\ awaiting (mqStart this0) = []
    /\ emitted (mqStart this0) = [].
Proof.
  intros failing next this.
  destruct (X8_rejection_stalls_the_queue nat this failing 0
              eq_refl eq_refl eq_refl) as (this0 & Hsettle & Hq & Hstall).
  exists this0. split; [exact Hsettle|]. split; [exact Hq|].
  apply (Hstall (mqStart this0)).
  eapply steps_step; [apply steps_refl|].
  apply step_call, call_mqStart.
Defined.

(** *** Calls made while a task executes *)

Section WhileExecuting.
Context {any : Type}.

Lemma Worker_emitted (this : Queue.t any) :
  emitted (Worker this) = emitted this.
Proof.
  destruct (_isProcessStartFlag this) eqn:Hs;
    [|now rewrite Worker_not_started].
  destruct (_ProcessState this) eqn:Hi;
    [now rewrite Worker_under_execution|].
  destruct (_Queue this) as [|front rest] eqn:Hq;
    [now rewrite Worker_empty|].
  now rewrite (Worker_fires _ this front rest).
Qed.

(** The settlement that follows a successful push made during an
    execution. *)
Lemma settle_after_push (this : Queue.t any) (v : any) (i : option id)
    (Process : Promise any) (Options : option Options.t) :
  _ProcessState this = UNDER_EXECUTION ->
  awaiting this = [task (v, i)] ->
  invalid_Priority Options = false ->
  settle 0 (snd (mqPush Process Options this))
  = Some (Worker
            (set_ProcessState
               (emit (set_awaiting (insert Process Options this) [])
                  (Result.mk v i (getQueueLength this + 1)))
               IDLE)).
Proof.
  intros Hex Ha Hv.
  rewrite mqPush_no_tick by auto. cbn [snd].
  assert (Ha' : awaiting (insert Process Options this) = [task (v, i)]).
  { destruct (insert_is_set_Queue _ this Process Options) as [q ->].
    exact Ha. }
  rewrite (settle_fulfilled _ v i Ha'). unfold Worker_resume.
  cbn [_Queue set_awaiting Process.ProcessId task snd].
  pose proof (insert_length _ this Process Options) as Hlen.
  unfold getQueueLength in *. now rewrite Hlen.
Qed.

End WhileExecuting.



(** X10: the length in a result is read when the task completes, not when
    it was dequeued: a record pushed while the task executes is counted in
    the result of that task. *)
Theorem X10_result_counts_later_pushes (any : Type) (this : Queue.t any)
    (v : any) (i : option id) (Process : Promise any)
    (Options : option Options.t) :
  _ProcessState this = UNDER_EXECUTION ->
  awaiting this = [task (v, i)] ->
  invalid_Priority Options = false ->
  exists this',
    settle 0 (snd (mqPush Process Options this)) = Some this'
    /\ emitted this'
       = emitted this ++ [Result.mk v i (getQueueLength this + 1)].
Proof.
  intros Hex Ha Hv.
  rewrite (settle_after_push this v i Process Options Hex Ha Hv).
  eexists. split; [reflexivity|].
  rewrite Worker_emitted. cbn.
  destruct (insert_is_set_Queue _ this Process Options) as [q ->].
  reflexivity.
Qed.

Lemma X10_result_counts_later_pushes_witness :
  let this : Queue.t nat :=
    mqStart (set_Queue new [task (1, Some (StrId "a"))]) in
  exists this',
    settle 0 (snd (mqPush (fulfils 2) None this)) = Some this'
    /\ emitted this' = [Result.mk 1 (Some (StrId "a")) 1].
Proof.
  intros this.
  exact (X10_result_counts_later_pushes nat this 1 (Some (StrId "a"))
           (fulfils 2) None eq_refl eq_refl eq_refl).
Defined.



(** *** The current identifier, continued *)

Lemma id_strict_eq_truthy (a b : id) :
  id_strict_eq a b = true -> id_truthy a = id_truthy b.
Proof.
  destruct a as [[|s|p]|s], b as [[|t|q]|t]; cbn; try discriminate; auto.
  - intros Hpq. apply Qeq_bool_iff in Hpq. f_equal.
    destruct (Qeq_bool p 0) eqn:Hp, (Qeq_bool q 0) eqn:Hq; auto.
    + apply Qeq_bool_iff in Hp. apply Qeq_bool_neq in Hq.
      destruct Hq. now rewrite <- Hpq.
    + apply Qeq_bool_iff in Hq. apply Qeq_bool_neq in Hp.
      destruct Hp. now rewrite Hpq.
  - intros Hst. apply String.eqb_eq in Hst. now subst.
Qed.

Section CurrentTruthy.
Context {any : Type}.

Lemma or_null_truthy (x : option id) :
  match or_null x with
  | Some i => id_truthy i = true
  | None => True
  end.
Proof.
  destruct x as [i|]; cbn; [|exact I].
  destruct (id_truthy i) eqn:Hi; [exact Hi|exact I].
Qed.

Lemma current_truthy_Worker (this : Queue.t any) :
  current_truthy this -> current_truthy (Worker this).
Proof.
  intros H.
  destruct (_isProcessStartFlag this) eqn:Hs;
    [|now rewrite Worker_not_started].
  destruct (_ProcessState this) eqn:Hi;
    [now rewrite Worker_under_execution|].
  destruct (_Queue this) as [|front rest] eqn:Hq;
    [now rewrite Worker_empty|].
  rewrite (Worker_fires _ this front rest) by assumption.
  apply or_null_truthy.
Qed.

Lemma current_truthy_step (this this' : Queue.t any) :
  step this this' -> current_truthy this -> current_truthy this'.
Proof.
  intros Hstep H.
  destruct Hstep as [this this' Hcall|i this this' Hsettle].
  - destruct Hcall as [f o this| this | i this | this | this].
    + destruct (invalid_Priority o) eqn:Hv.
      * now rewrite mqPush_invalid.
      * rewrite mqPush_valid by assumption. cbv zeta. cbn [snd].
        destruct (insert_is_set_Queue _ this f o) as [q ->].
        destruct (_isProcessStartFlag this);
          [apply current_truthy_Worker|]; exact H.
    + destruct (mqPop_is_set_Queue _ this) as [q ->]. exact H.
    + destruct (mqRemove_is_set_Queue _ this i) as [q ->]. exact H.
    + apply current_truthy_Worker. exact H.
    + exact H.
  - unfold settle in Hsettle.
    destruct (nth_error (awaiting this) i) as [ele|]; [|discriminate].
    destruct (Process.CallableFunction ele) as [res|reason|];
      [| |discriminate]; injection Hsettle as <-.
    + apply current_truthy_Worker. exact H.
    + exact H.
Qed.

Lemma reachable_current_truthy (this : Queue.t any) :
  reachable this -> current_truthy this.
Proof.
  induction 1 as [|this this' _ IH Hstep]; [exact I|].
  now apply (current_truthy_step this).
Qed.

End CurrentTruthy.

(** X12: in every state a queue can reach, the current identifier is
    [null] or truthy, never [0], [NaN] or the empty string.  So a falsy
    identifier is never [===] to it, and [mqRemove] of a falsy identifier
    never throws the active-task error. *)
Theorem X12_current_id_is_never_falsy (any : Type) (this : Queue.t any)
    (i : id) :
  reachable this ->
  id_truthy i = false ->
  getCurrentProcessId this <> Some i
  /\ strict_eq (CurrentProcessId this) (Some i) = false
  /\ forall e, fst (mqRemove i this) <> Throw (ActiveTaskError e).
Proof.
  intros Hreach Hfalsy.
  pose proof (reachable_current_truthy this Hreach) as Ht.
  unfold current_truthy, getCurrentProcessId in *.
  assert (Hneq : strict_eq (CurrentProcessId this) (Some i) = false).
  { destruct (CurrentProcessId this) as [c|]; [|reflexivity]. cbn.
    destruct (id_strict_eq c i) eqn:Hci; [|reflexivity].
    apply id_strict_eq_truthy in Hci. congruence. }
  split; [|split; [exact Hneq|]].
  - intros Heq. rewrite Heq in Ht. congruence.
  - intros e. unfold mqRemove. rewrite Hneq.
    destruct (length (_Queue this) =? 0); [discriminate|].
    destruct (splice _ _ _) as [[|r removed] q]; discriminate.
Qed.

Lemma X12_current_id_is_never_falsy_witness :
  let zero := Process.mk (fulfils 0) (Some (NumId (of_nat 0))) in
  let this : Queue.t nat :=
    mqStart (snd (mqPush (fulfils 0)
                    (Some (Options.mk None (Some (NumId (of_nat 0)))))
                    new)) in
  awaiting this = [zero]
  /\ getCurrentProcessId this <> Some (NumId (of_nat 0))
  /\ strict_eq (CurrentProcessId this) (Some (NumId (of_nat 0))) = false
  /\ forall e,
       fst (mqRemove (NumId (of_nat 0)) this) <> Throw (ActiveTaskError e).
Proof.
  intros zero this. split; [reflexivity|].
  apply (X12_current_id_is_never_falsy nat this (NumId (of_nat 0)));
    [|reflexivity].
  eapply reachable_step; [|apply step_call, call_mqStart].
  eapply reachable_step; [apply reachable_new|].
  apply step_call,
    (call_mqPush (fulfils 0)
       (Some (Options.mk None (Some (NumId (of_nat 0)))))).
Defined.

(** *** Results *)

Section Emission.
Context {any : Type}.

Lemma call_emitted (this this' : Queue.t any) :
  call this this' -> emitted this' = emitted this.
Proof.
  intros Hcall. destruct Hcall as [f o this| this | i this | this | this].
  - destruct (invalid_Priority o) eqn:Hv.
    + now rewrite mqPush_invalid.
    + rewrite mqPush_valid by assumption. cbv zeta. cbn [snd].
      destruct (insert_is_set_Queue _ this f o) as [q ->].
      destruct (_isProcessStartFlag this);
        [rewrite Worker_emitted|]; reflexivity.
  - now destruct (mqPop_is_set_Queue _ this) as [q ->].
  - now destruct (mqRemove_is_set_Queue _ this i) as [q ->].
  - unfold mqStart. now rewrite Worker_emitted.
  - reflexivity.
Qed.

End Emission.

(** X13: no method emits a result: results are emitted only when a promise
    settles, at most one per settlement.  A fulfilment emits exactly one,
    with the value of the promise, the identifier of the record that was
    awaited and the length of the buffer at that moment; a rejection emits
    none. *)
Theorem X13_results_come_from_settlements (any : Type)
    (this this' : Queue.t any) :
  (call this this' -> emitted this' = emitted this)
  /\ (forall i,
        settle i this = Some this' ->
        exists ele,
          nth_error (awaiting this) i = Some ele
          /\ match Process.CallableFunction ele with
             | fulfils res =>
                 emitted this'
                 = emitted this
                   ++ [Result.mk res (Process.ProcessId ele)
                         (getQueueLength this)]
             | _ => emitted this' = emitted this
             end).
Proof.
  split; [apply call_emitted|].
  intros i Hsettle. unfold settle in Hsettle.
  destruct (nth_error (awaiting this) i) as [ele|]; [|discriminate].
  exists ele. split; [reflexivity|].
  destruct (Process.CallableFunction ele) as [res|reason|];
    [| |discriminate]; injection Hsettle as <-.
  - unfold Worker_resume. now rewrite Worker_emitted.
  - reflexivity.
Qed.

Lemma X13_results_come_from_settlements_witness :
  let a := (1, Some (StrId "a")) in
  let b := (2, Some (StrId "b")) in
  let stopped : Queue.t nat := set_Queue new (map task [a; b]) in
  let this := mqStart stopped in
  emitted this = emitted stopped
  /\ exists this',
       settle 0 this = Some this'
       /\ emitted this' = [Result.mk 1 (Some (StrId "a")) 1].
Proof.
  intros a b stopped this.
  split.
  - exact (proj1 (X13_results_come_from_settlements nat stopped this)
             (call_mqStart stopped)).
  - eexists. split; [reflexivity|].
    destruct (proj2 (X13_results_come_from_settlements nat this _) 0 eq_refl)
      as (ele & Hele & Hem).
    injection Hele as <-. exact Hem.
Defined.

(** *** Identifiers are always present *)

Lemma nth_error_split_skipn (A : Type) (l : list A) (i : nat) (x : A) :
  nth_error l i = Some x -> l = firstn i l ++ x :: skipn (S i) l.
Proof.
  revert l; induction i as [|i IH]; intros [|y l] H; try discriminate.
  - now injection H as ->.
  - cbn. f_equal. now apply IH.
Qed.

Section Identified.
Context {any : Type}.

Lemma mqPop_Queue_incl (this : Queue.t any) :
  incl (_Queue (snd (mqPop this))) (_Queue this).
Proof.
  destruct (_Queue this) as [|x l] eqn:Hq.
  - unfold mqPop. rewrite Hq. cbn. rewrite Hq. apply incl_refl.
  - destruct (snoc_view (x :: l)) as (init & tail & Hsnoc); [discriminate|].
    rewrite (mqPop_snoc _ this init tail) by now rewrite Hq.
    destruct (strict_eq _ _); cbn.
    + rewrite Hq. apply incl_refl.
    + rewrite Hsnoc. apply incl_appl, incl_refl.
Qed.

Lemma mqRemove_Queue_incl (this : Queue.t any) (i : id) :
  incl (_Queue (snd (mqRemove i this))) (_Queue this).
Proof.
  destruct (_Queue this) as [|x l] eqn:Hq.
  - unfold mqRemove. rewrite Hq. cbn. rewrite Hq. apply incl_refl.
  - destruct (strict_eq (CurrentProcessId this) (Some i)) eqn:Hcur.
    + unfold mqRemove. rewrite Hq, Hcur. cbn. rewrite Hq. apply incl_refl.
    + destruct (mqRemove_total _ this i) as (b & r & a & Hsplit & -> & _);
        [now rewrite Hq|assumption|].
      cbn. rewrite <- Hq, Hsplit.
      apply incl_app; [apply incl_appl, incl_refl|].
      apply incl_appr, incl_tl, incl_refl.
Qed.

Lemma identified_set_Queue (this : Queue.t any) q :
  identified this -> incl q (_Queue this) -> identified (set_Queue this q).
Proof.
  intros (Hq & Ha & He) Hincl. repeat split; cbn; auto.
  now apply (incl_Forall Hincl).
Qed.

Lemma identified_insert (this : Queue.t any) (Process : Promise any)
    (Options : option Options.t) :
  identified this -> identified (insert Process Options this).
Proof.
  intros (Hq & Ha & He). unfold insert, unshift, push.
  destruct (is_HIGH Options); repeat split; cbn; auto.
  - constructor; [discriminate|assumption].
  - apply Forall_app. split; [assumption|].
    constructor; [discriminate|constructor].
Qed.

Lemma identified_Worker (this : Queue.t any) :
  identified this -> identified (Worker this).
Proof.
  intros (Hq & Ha & He).
  destruct (_isProcessStartFlag this) eqn:Hs;
    [|now rewrite Worker_not_started].
  destruct (_ProcessState this) eqn:Hi;
    [now rewrite Worker_under_execution|].
  destruct (_Queue this) as [|front rest] eqn:Hq';
    [rewrite Worker_empty by assumption; repeat split; auto;
     now rewrite Hq'|].
  rewrite (Worker_fires _ this front rest) by assumption.
  inversion Hq as [|? ? Hfront Hrest]; subst.
  repeat split; cbn; auto.
  apply Forall_app. split; [assumption|]. now constructor.
Qed.

Lemma identified_step (this this' : Queue.t any) :
  step this this' -> identified this -> identified this'.
Proof.
  intros Hstep H.
  destruct Hstep as [this this' Hcall|i this this' Hsettle].
  - destruct Hcall as [f o this| this | i this | this | this].
    + destruct (invalid_Priority o) eqn:Hv.
      * now rewrite mqPush_invalid.
      * rewrite mqPush_valid by assumption. cbv zeta. cbn [snd].
        destruct (_isProcessStartFlag this);
          [apply identified_Worker|]; now apply identified_insert.
    + pose proof (mqPop_Queue_incl this) as Hincl.
      destruct (mqPop_is_set_Queue _ this) as [q Hq]. rewrite Hq in *.
      now apply identified_set_Queue.
    + pose proof (mqRemove_Queue_incl this i) as Hincl.
      destruct (mqRemove_is_set_Queue _ this i) as [q Hq]. rewrite Hq in *.
      now apply identified_set_Queue.
    + apply identified_Worker. exact H.
    + exact H.
  - unfold settle in Hsettle.
    destruct (nth_error (awaiting this) i) as [ele|] eqn:Hele;
      [|discriminate].
    destruct H as (Hq & Ha & He).
    rewrite (nth_error_split_skipn _ _ _ _ Hele) in Ha.
    apply Forall_app in Ha. destruct Ha as [Ha1 Ha2].
    inversion Ha2 as [|? ? Hid Ha3]; subst.
    assert (Ha' : Forall (fun p => Process.ProcessId p <> None)
                    (firstn i (awaiting this)
                     ++ skipn (S i) (awaiting this)))
      by (apply Forall_app; now split).
    destruct (Process.CallableFunction ele) as [res|reason|];
      [| |discriminate]; injection Hsettle as <-.
    + apply identified_Worker. repeat split; cbn; auto.
      apply Forall_app. split; [assumption|]. now constructor.
    + repeat split; cbn; auto.
Qed.

Lemma reachable_identified (this : Queue.t any) :
  reachable this -> identified this.
Proof.
  induction 1 as [|this this' _ IH Hstep].
  - repeat split; constructor.
  - now apply (identified_step this).
Qed.

End Identified.

(** X14: although [ProcessId] is declared optional and the worker reads it
    with [?.], in every state a queue can reach each pending record, each
    executing record and each result emitted has an identifier; and the
    identifier a successful [mqPop] or [mqRemove] returns is never
    [undefined]. *)
Theorem X14_identifiers_are_always_present (any : Type)
    (this : Queue.t any) :
  reachable this ->
  Forall (fun r => Result.processId r <> None) (emitted this)
  /\ Forall (fun p => Process.ProcessId p <> None)
       (awaiting this ++ _Queue this)
  /\ (forall r this',
        mqPop this = (Return r, this') ->
        PushPopReturnType.ProcessId r <> None)
  /\ (forall i r this',
        mqRemove i this = (Return r, this') ->
        PushPopReturnType.ProcessId r <> None).
Proof.
  intros Hreach.
  destruct (reachable_identified this Hreach) as (Hq & Ha & He).
  split; [exact He|]. split; [apply Forall_app; now split|].
  rewrite Forall_forall in Hq. split.
  - intros r this' Hpop.
    destruct (_Queue this) as [|x l] eqn:Hql.
    + unfold mqPop in Hpop. rewrite Hql in Hpop. discriminate.
    + destruct (snoc_view (x :: l)) as (init & tail & Hsnoc);
        [discriminate|].
      rewrite (mqPop_snoc _ this init tail) in Hpop by now rewrite Hql.
      destruct (strict_eq _ _); [discriminate|].
      injection Hpop as <- _. cbn.
      apply Hq. rewrite Hsnoc. apply in_or_app; right; now left.
  - intros i r this' Hrem.
    destruct (_Queue this) as [|x l] eqn:Hql.
    + unfold mqRemove in Hrem. rewrite Hql in Hrem. discriminate.
    + destruct (strict_eq (CurrentProcessId this) (Some i)) eqn:Hcur.
      * unfold mqRemove in Hrem. rewrite Hql, Hcur in Hrem. discriminate.
      * destruct (mqRemove_total _ this i) as (b & p & a & Hsplit & E & _);
          [now rewrite Hql|assumption|].
        rewrite E in Hrem. injection Hrem as <- _. cbn.
        apply Hq. rewrite <- Hql, Hsplit.
        apply in_or_app; right; now left.
Qed.

Lemma X14_identifiers_are_always_present_witness :
  let this : Queue.t nat :=
    snd (mqPush (fulfils 2) None (snd (mqPush (fulfils 1) None new))) in
  Forall (fun r => Result.processId r <> None) (emitted this)
  /\ Forall (fun p => Process.ProcessId p <> None)
       (awaiting this ++ _Queue this)
  /\ PushPopReturnType.ProcessId
       (PushPopReturnType.mk (Some (NumId (of_nat 2))) 1) <> None
  /\ PushPopReturnType.ProcessId
       (PushPopReturnType.mk (Some (NumId (of_nat 1))) 1) <> None.
Proof.
  intros this.
  assert (Hreach : reachable this).
  { eapply reachable_step;
      [|apply step_call, (call_mqPush (fulfils 2) None)].
    eapply reachable_step; [apply reachable_new|].
    apply step_call, (call_mqPush (fulfils 1) None). }
  destruct (X14_identifiers_are_always_present nat this Hreach)
    as (He & Hrec & Hpop & Hrem).
  split; [exact He|]. split; [exact Hrec|]. split.
  - exact (Hpop _ _ eq_refl).
  - exact (Hrem (NumId (of_nat 1)) _ _ eq_refl).
Defined.

(** *** Stale identifiers and restarts *)

(** X15: [mqPop] compares the tail record with the current identifier
    whether or not anything executes.  On a stopped queue, after a push
    that is not HIGH whose identifier is [===] to the current one (which
    [#Worker] leaves in place when a task completes), [mqPop] throws the
    active-task error and the record stays in the buffer. *)
Theorem X15_pop_refuses_the_current_id (any : Type) (this : Queue.t any)
    (Process : Promise any) (Options : option Options.t) :
  invalid_Priority Options = false ->
  is_HIGH Options = false ->
  _isProcessStartFlag this = false ->
  strict_eq (CurrentProcessId this) (Some (push_id Options this)) = true ->
  let pushed := snd (mqPush Process Options this) in
  mqPop pushed = (Throw (ActiveTaskError (CurrentProcessId this)), pushed)
  /\ _Queue pushed
     = _Queue this ++ [Process.mk Process (Some (push_id Options this))].
Proof.
  intros Hv Hlow Hs Hcur pushed. unfold pushed.
  rewrite mqPush_no_tick by auto. cbn [snd].
  unfold insert. rewrite Hlow. unfold push.
  rewrite (mqPop_snoc _ _ (_Queue this)
             (Process.mk Process (Some (push_id Options this))))
    by reflexivity.
  cbn [set_Queue CurrentProcessId Process.ProcessId _Queue].
  now rewrite Hcur.
Qed.

Lemma X15_pop_refuses_the_current_id_witness :
  let done : Queue.t nat :=
    match settle 0 (mqStart (snd (mqPush (fulfils 0) None new))) with
    | Some this => mqEnd this
    | None => new
    end in
  let pushed := snd (mqPush (fulfils 1) None done) in
  _ProcessState done = IDLE
  /\ awaiting done = []
  /\ mqPop pushed
     = (Throw (ActiveTaskError (Some (NumId (of_nat 1)))), pushed)
  /\ _Queue pushed = [Process.mk (fulfils 1) (Some (NumId (of_nat 1)))].
Proof.
  intros done pushed.
  split; [reflexivity|]. split; [reflexivity|].
  exact (X15_pop_refuses_the_current_id nat done (fulfils 1) None
           eq_refl eq_refl eq_refl eq_refl).
Defined.

(** X16: in every state a queue can reach, stopping a started queue and
    starting it again at once changes nothing: no record is dequeued and
    no second worker is suspended. *)
Theorem X16_stop_then_start (any : Type) (this : Queue.t any) :
  reachable this ->
  _isProcessStartFlag this = true ->
  mqStart (mqEnd this) = this.
Proof.
  intros Hreach Hs. unfold mqStart, mqEnd.
  replace (set_isProcessStartFlag (set_isProcessStartFlag this false) true)
    with this by (destruct this; cbn in *; now subst).
  destruct (_ProcessState this) eqn:Hi.
  - now apply Worker_under_execution.
  - apply Worker_empty. now apply reachable_no_backlog.
Qed.

Lemma X16_stop_then_start_witness :
  let this : Queue.t nat :=
    mqStart (snd (mqPush (fulfils 1) None
                    (snd (mqPush (fulfils 0) None new)))) in
  mqStart (mqEnd this) = this.
Proof.
  intros this.
  apply (X16_stop_then_start nat this); [|reflexivity].
  eapply reachable_step; [|apply step_call, call_mqStart].
  eapply reachable_step;
    [|apply step_call, (call_mqPush (fulfils 1) None)].
  eapply reachable_step; [apply reachable_new|].
  apply step_call, (call_mqPush (fulfils 0) None).
Defined.
